(** * A shallow embedding of [parse_usage] from [get_claude_usage.py]

    Python strings are modelled as lists of code points ([list N]).  The
    pipeline is followed step by step: the four [re.sub] passes that clean
    the transcript, the [raw] tail, the split on newlines and the loop over
    the lines with its three section extractors.  All regex searches after
    the cleaning run on text made of code points [0x20..0x7E] and [\n]
    only, where [\d] is [0-9], [\s] and [str.strip] act on ASCII
    whitespace, and [re.IGNORECASE] and [str.lower] are ASCII case folding;
    the character classes below are written for that alphabet. *)

From Stdlib Require Import Strings.String Ascii.
From Stdlib Require Import List NArith Lia Bool.
Import ListNotations.
Open Scope N_scope.

(** ** Characters *)

Definition char := N.
Definition pystr := list char.

(** String literals of the tests, as code points. *)
Definition str (s : String.string) : pystr :=
  map N_of_ascii (String.list_ascii_of_string s).

Definition ESC : char := 27.
Definition NL : char := 10.
Definition SPACE : char := 32.
Definition RPAREN : char := 41.
Definition PERCENT : char := 37.

Definition in_range (lo hi c : char) : bool := (lo <=? c) && (c <=? hi).

(** [\d] *)
Definition is_digit (c : char) : bool := in_range 48 57 c.
(** [\s] and the characters [str.strip] removes (the ASCII whitespace of
    [Py_UNICODE_ISSPACE]). *)
Definition is_space (c : char) : bool :=
  in_range 9 13 c || in_range 28 31 c || (c =? 32).
(** [[a-zA-Z]] *)
Definition is_alpha (c : char) : bool := in_range 65 90 c || in_range 97 122 c.
(** [str.lower] on ASCII. *)
Definition lower_char (c : char) : char := if in_range 65 90 c then c + 32 else c.
Definition lower (s : pystr) : pystr := map lower_char s.

(** ** Cleaning *)

(** [re.sub(r'\x1b\[[0-9;?]*[a-zA-Z]', '', text)]: at each position try the
    pattern; on a match resume after it, otherwise keep the character and
    try the next position.  The parameter class and the final letter are
    disjoint, so the greedy star never needs to give back characters. *)
Definition is_csi_param (c : char) : bool := is_digit c || (c =? 59) || (c =? 63).

Fixpoint strip_csi (l : pystr) : pystr :=
  match l with
  | [] => []
  | c :: t =>
      if c =? ESC then
        match t with
        | b :: t' =>
            if b =? 91 then
              (fix params (u : pystr) : pystr :=
                 match u with
                 | [] => c :: strip_csi t
                 | x :: u' =>
                     if is_csi_param x then params u'
                     else if is_alpha x then strip_csi u'
                     else c :: strip_csi t
                 end) t'
            else c :: strip_csi t
        | [] => [c]
        end
      else c :: strip_csi t
  end.

(** [re.sub(r'\x1b[<>=\]][^\x1b]*', '', clean)]: an escape followed by one of
    [< > = \]] starts a match that runs to the next escape (excluded) or to
    the end of the text. *)
Definition is_osc_intro (c : char) : bool :=
  (c =? 60) || (c =? 62) || (c =? 61) || (c =? 93).

Fixpoint strip_osc (l : pystr) : pystr :=
  match l with
  | [] => []
  | c :: t =>
      if c =? ESC then
        match t with
        | b :: t' =>
            if is_osc_intro b then
              (fix skip (u : pystr) : pystr :=
                 match u with
                 | [] => []
                 | x :: u' => if x =? ESC then strip_osc u else skip u'
                 end) t'
            else c :: strip_osc t
        | [] => [c]
        end
      else c :: strip_osc t
  end.

(** [re.sub(r'[^\x20-\x7E\n]', ' ', clean)] *)
Definition printable_or_nl (c : char) : bool := in_range 32 126 c || (c =? NL).
Definition replace_nonprintable (l : pystr) : pystr :=
  map (fun c => if printable_or_nl c then c else SPACE) l.

(** [re.sub(r' +', ' ', clean)]: every maximal run of spaces becomes one
    space; [prev_space] records that the previous input character was a
    space of the current run. *)
Fixpoint collapse_spaces (prev_space : bool) (l : pystr) : pystr :=
  match l with
  | [] => []
  | c :: t =>
      if c =? SPACE then
        if prev_space then collapse_spaces true t
        else SPACE :: collapse_spaces true t
      else c :: collapse_spaces false t
  end.

Definition clean (text : pystr) : pystr :=
  collapse_spaces false (replace_nonprintable (strip_osc (strip_csi text))).

(** [clean[-1000:]]: the whole text when it is shorter. *)
Definition py_tail (n : nat) (l : pystr) : pystr := skipn (length l - n) l.

(** [clean.split('\n')] *)
Fixpoint split_nl (l : pystr) : list pystr :=
  match l with
  | [] => [[]]
  | c :: t =>
      let rest := split_nl t in
      if c =? NL then [] :: rest
      else match rest with
           | r :: rs => (c :: r) :: rs
           | [] => [[c]]
           end
  end.

(** [str.strip()] *)
Fixpoint lstrip (l : pystr) : pystr :=
  match l with
  | c :: t => if is_space c then lstrip t else l
  | [] => []
  end.
Definition strip (l : pystr) : pystr := rev (lstrip (rev (lstrip l))).

(** [needle in hay] *)
Fixpoint is_prefix (p l : pystr) : bool :=
  match p, l with
  | [], _ => true
  | a :: p', b :: l' => (a =? b) && is_prefix p' l'
  | _ :: _, [] => false
  end.
Fixpoint contains (hay needle : pystr) : bool :=
  is_prefix needle hay ||
  match hay with
  | [] => false
  | _ :: t => contains t needle
  end.

(** ** Python values *)

Inductive exn := ValueError.
Inductive pyres (A : Type) :=
| Ok : A -> pyres A
| Raise : exn -> pyres A.
Arguments Ok {A} _.
Arguments Raise {A} _.

Definition bind {A B} (m : pyres A) (f : A -> pyres B) : pyres B :=
  match m with Ok a => f a | Raise e => Raise e end.
Notation "'let*' x ':=' m 'in' f" := (bind m (fun x => f))
  (at level 200, x name, m at level 100, f at level 200).

(** Value of a string of ASCII digits. *)
Definition digits_value (ds : pystr) : N :=
  fold_left (fun acc d => acc * 10 + (d - 48)) ds 0.

(** [int(s)] on a string of decimal digits.  CPython (3.11 on, and the
    3.7.14 / 3.8.14 / 3.9.14 / 3.10.7 security releases) refuses to convert
    a decimal string of more than [sys.int_info.default_max_str_digits] =
    4300 digits and raises [ValueError]. *)
Definition max_str_digits : nat := 4300.
Definition py_int (ds : pystr) : pyres N :=
  if Nat.ltb max_str_digits (length ds) then Raise ValueError
  else Ok (digits_value ds).

(** The dictionary built by [parse_usage]. *)
Record usage := mk_usage {
  session_percent : N;
  session_reset : pystr;
  weekly_percent : N;
  weekly_reset : pystr;
  sonnet_percent : N;
  raw : pystr
}.

Definition set_session_percent (n : N) (r : usage) : usage :=
  {| session_percent := n; session_reset := session_reset r;
     weekly_percent := weekly_percent r; weekly_reset := weekly_reset r;
     sonnet_percent := sonnet_percent r; raw := raw r |}.
Definition set_session_reset (s : pystr) (r : usage) : usage :=
  {| session_percent := session_percent r; session_reset := s;
     weekly_percent := weekly_percent r; weekly_reset := weekly_reset r;
     sonnet_percent := sonnet_percent r; raw := raw r |}.
Definition set_weekly_percent (n : N) (r : usage) : usage :=
  {| session_percent := session_percent r; session_reset := session_reset r;
     weekly_percent := n; weekly_reset := weekly_reset r;
     sonnet_percent := sonnet_percent r; raw := raw r |}.
Definition set_weekly_reset (s : pystr) (r : usage) : usage :=
  {| session_percent := session_percent r; session_reset := session_reset r;
     weekly_percent := weekly_percent r; weekly_reset := s;
     sonnet_percent := sonnet_percent r; raw := raw r |}.
Definition set_sonnet_percent (n : N) (r : usage) : usage :=
  {| session_percent := session_percent r; session_reset := session_reset r;
     weekly_percent := weekly_percent r; weekly_reset := weekly_reset r;
     sonnet_percent := n; raw := raw r |}.

(** ** Regex searches on one line *)

(** [re.search(p, s)]: the match at the leftmost position where [p]
    matches, trying every position including the end of the string. *)
Fixpoint search {A} (match_at : pystr -> option A) (l : pystr) : option A :=
  match match_at l with
  | Some a => Some a
  | None => match l with [] => None | _ :: t => search match_at t end
  end.

(** [span p l]: the longest prefix of [l] whose characters satisfy [p], and
    the rest (a greedy star on a character class). *)
Fixpoint span (p : char -> bool) (l : pystr) : pystr * pystr :=
  match l with
  | c :: t => if p c then let (a, b) := span p t in (c :: a, b) else ([], l)
  | [] => ([], [])
  end.

(** [(\d+)\s*%] at the head of [l], giving [group(1)].  [\d], [\s] and [%]
    are disjoint, so a greedy attempt is the only one that can succeed. *)
Definition pct_at (l : pystr) : option pystr :=
  let (ds, r) := span is_digit l in
  match ds with
  | [] => None
  | _ :: _ =>
      match snd (span is_space r) with
      | c :: _ => if c =? PERCENT then Some ds else None
      | [] => None
      end
  end.

Definition find_pct (line : pystr) : option pystr := search pct_at line.

(** Case-insensitive literal at the head ([re.IGNORECASE]); the literal
    is given in lower case.  Returns the matched text and the rest. *)
Fixpoint ci_prefix (p l : pystr) : option (pystr * pystr) :=
  match p, l with
  | [], _ => Some ([], l)
  | a :: p', b :: l' =>
      if lower_char b =? a then
        match ci_prefix p' l' with
        | Some (m, r) => Some (b :: m, r)
        | None => None
        end
      else None
  | _ :: _, [] => None
  end.

(** [s?] followed by the rest [k] of a pattern: first with the [s], then
    without it (backtracking). *)
Definition opt_s {A} (k : pystr -> pystr -> option A) (l : pystr) : option A :=
  match l with
  | c :: t =>
      if lower_char c =? 115 then
        match k [c] t with Some a => Some a | None => k [] l end
      else k [] l
  | [] => k [] l
  end.

Definition not_rparen_nl (c : char) : bool := negb (c =? RPAREN) && negb (c =? NL).
Definition is_digit_or_colon (c : char) : bool := is_digit c || (c =? 58).

(** The pattern [resets?\s*] followed by the group
    [\d+[:\d]*\s*[ap]m[^)\n]*], with [re.IGNORECASE], at the head of [l],
    giving the group ([group(1)]).  After [s?] the greedy [\s*], the run
    [\d+[:\d]*] and [\s*] cannot give back characters: the next item never
    matches a space, a digit or a colon. *)
Definition sreset_at (l : pystr) : option pystr :=
  match ci_prefix (str "reset") l with
  | None => None
  | Some (_, r1) =>
      opt_s (fun _ r2 =>
        let r3 := snd (span is_space r2) in
        match r3 with
        | d :: _ =>
            if is_digit d then
              let (run, r4) := span is_digit_or_colon r3 in
              let (sp, r5) := span is_space r4 in
              match r5 with
              | a :: m :: r6 =>
                  if (lower_char a =? 97) || (lower_char a =? 112) then
                    if lower_char m =? 109 then
                      Some (run ++ sp ++ [a; m] ++ fst (span not_rparen_nl r6))
                    else None
                  else None
              | _ => None
              end
            else None
        | [] => None
        end) r1
  end.

Definition find_sreset (line : pystr) : option pystr := search sreset_at line.

Definition months : list pystr :=
  map str ["jan"; "feb"; "mar"; "apr"; "may"; "jun";
           "jul"; "aug"; "sep"; "oct"; "nov"; "dec"]%string.

(** [(jan|feb|...|dec)]: the first alternative that matches. *)
Fixpoint alt_prefix (alts : list pystr) (l : pystr) : option (pystr * pystr) :=
  match alts with
  | [] => None
  | a :: rest =>
      match ci_prefix a l with
      | Some mr => Some mr
      | None => alt_prefix rest l
      end
  end.

(** [resets?\s*(jan|...|dec)[^)\n]+] with [re.IGNORECASE] at the head of
    [l], giving [group(0)]. *)
Definition wreset_at (l : pystr) : option pystr :=
  match ci_prefix (str "reset") l with
  | None => None
  | Some (w, r1) =>
      opt_s (fun s r2 =>
        let (sp, r3) := span is_space r2 in
        match alt_prefix months r3 with
        | Some (mon, r4) =>
            match fst (span not_rparen_nl r4) with
            | [] => None
            | tl => Some (w ++ s ++ sp ++ mon ++ tl)
            end
        | None => None
        end) r1
  end.

Definition find_wreset (line : pystr) : option pystr := search wreset_at line.

(** [re.sub(r'^resets?\s*', '', reset_text, flags=re.IGNORECASE)] *)
Definition drop_resets_prefix (l : pystr) : pystr :=
  match ci_prefix (str "reset") l with
  | None => l
  | Some (_, r1) =>
      let r2 := match r1 with
                | c :: t => if lower_char c =? 115 then t else r1
                | [] => r1
                end in
      snd (span is_space r2)
  end.

(** ** The loop over the lines *)

(** [for j in range(i, min(i + w, len(lines)))]: the first line of the
    window where the search matches ([break] after the first match). *)
Fixpoint first_match {A} (f : pystr -> option A) (window : list pystr) : option A :=
  match window with
  | [] => None
  | l :: rest => match f l with Some a => Some a | None => first_match f rest end
  end.

(** The percentage search of one section: [int(match.group(1))] stored with
    [set] on the first match of the window. *)
Definition scan_pct (set : N -> usage -> usage) (window : list pystr)
    (acc : usage) : pyres usage :=
  match first_match find_pct window with
  | Some ds => let* n := py_int ds in Ok (set n acc)
  | None => Ok acc
  end.

Definition scan_session_reset (window : list pystr) (acc : usage) : usage :=
  match first_match find_sreset window with
  | Some g => set_session_reset (strip g) acc
  | None => acc
  end.

Definition scan_weekly_reset (window : list pystr) (acc : usage) : usage :=
  match first_match find_wreset window with
  | Some g => set_weekly_reset (strip (drop_resets_prefix g)) acc
  | None => acc
  end.

(** [lines[i].strip().lower()] *)
Definition header_line (l : pystr) : pystr := lower (strip l).

Definition is_session_header (l : pystr) : bool :=
  contains (header_line l) (str "current session").
Definition is_weekly_header (l : pystr) : bool :=
  contains (header_line l) (str "current week") &&
  contains (header_line l) (str "all models").
Definition is_sonnet_header (l : pystr) : bool :=
  contains (header_line l) (str "sonnet only").

(** One iteration of [while i < len(lines)], given [lines[i:]]. *)
Definition step (ls : list pystr) (acc : usage) : pyres usage :=
  match ls with
  | [] => Ok acc
  | l :: _ =>
      let* acc :=
        if is_session_header l then
          let* acc := scan_pct set_session_percent (firstn 3 ls) acc in
          Ok (scan_session_reset (firstn 3 ls) acc)
        else Ok acc in
      let* acc :=
        if is_weekly_header l then
          let* acc := scan_pct set_weekly_percent (firstn 3 ls) acc in
          Ok (scan_weekly_reset (firstn 5 ls) acc)
        else Ok acc in
      if is_sonnet_header l then scan_pct set_sonnet_percent (firstn 3 ls) acc
      else Ok acc
  end.

Fixpoint loop (ls : list pystr) (acc : usage) : pyres usage :=
  match ls with
  | [] => Ok acc
  | l :: rest => let* acc := step (l :: rest) acc in loop rest acc
  end.

Definition init_result (raw_text : pystr) : usage :=
  {| session_percent := 0; session_reset := []; weekly_percent := 0;
     weekly_reset := []; sonnet_percent := 0; raw := raw_text |}.

Definition lines_of (text : pystr) : list pystr := split_nl (clean text).

Definition parse_usage (text : pystr) : pyres usage :=
  let c := clean text in
  loop (split_nl c) (init_result (py_tail 1000 c)).

(** ** Vocabulary of the statements *)

(** No two consecutive spaces. *)
Fixpoint no_double_space (l : pystr) : bool :=
  match l with
  | a :: ((b :: _) as t) => negb ((a =? SPACE) && (b =? SPACE)) && no_double_space t
  | _ => true
  end.

(** The three sections of the [/usage] screen and their percentages. *)
Inductive section := Session | Weekly | Sonnet.

Definition is_header (sec : section) (l : pystr) : bool :=
  match sec with
  | Session => is_session_header l
  | Weekly => is_weekly_header l
  | Sonnet => is_sonnet_header l
  end.

Definition percent_of (sec : section) (r : usage) : N :=
  match sec with
  | Session => session_percent r
  | Weekly => weekly_percent r
  | Sonnet => sonnet_percent r
  end.

(** Not from the source: the percentage pattern as the specification words
    it, digits immediately followed by ['%'] ([(\d+)%]). *)
Definition tight_pct_at (l : pystr) : option pystr :=
  let (ds, r) := span is_digit l in
  match ds, r with
  | _ :: _, c :: _ => if c =? PERCENT then Some ds else None
  | _, _ => None
  end.
Definition find_tight_pct (line : pystr) : option pystr := search tight_pct_at line.

(** Concrete transcripts. *)
Definition session_scenario : pystr :=
  str "Current session" ++ [NL] ++ str "  45%" ++ [NL]
  ++ str "  Resets 3:00pm (America/NY)".
Definition weekly_scenario : pystr :=
  str "Current week (all models)" ++ [NL] ++ str "  12%" ++ [NL]
  ++ str "  Resets Jan 5, 2025".
Definition sample_transcript : pystr :=
  [ESC] ++ str "[2J" ++ [ESC] ++ str "[1;1H" ++ str "Settings:  Usage" ++ [NL]
  ++ session_scenario ++ [NL] ++ str "  " ++ [9472; 9472] ++ [NL]
  ++ weekly_scenario ++ [NL] ++ str "Current week (Sonnet only)" ++ [NL]
  ++ str "  3% used" ++ [ESC] ++ str "]0;claude" ++ [7].

Definition long_percent_transcript : pystr :=
  str "Current session " ++ repeat 49 4301%nat ++ str "%".

Definition spaced_percent_transcript : pystr := str "Current session 45 % 7%".

Definition over_hundred_transcript : pystr := str "Current session" ++ [NL] ++ str "250%".

Definition weekly_redrawn_transcript : pystr :=
  weekly_scenario ++ [NL] ++ str "Current week (all models) 99%".

Definition headerless_transcript : pystr :=
  [ESC] ++ str "[32mWelcome back" ++ [NL] ++ str "  /usage   loading...".

(** A session header whose percentage is three lines below it, outside the
    three-line window. *)
Definition distant_percent_transcript : pystr :=
  str "Current session" ++ [NL] ++ str "  loading" ++ [NL] ++ str "  ..." ++ [NL]
  ++ str "  45%".

(** A weekly header whose reset line is four lines below it, inside the
    five-line window. *)
Definition weekly_far_reset_transcript : pystr :=
  str "Current week (all models)" ++ [NL] ++ str "  12%" ++ [NL] ++ str "  ----"
  ++ [NL] ++ str "  ----" ++ [NL] ++ str "  Resets Jan 5, 2025".

(** Not from the source: ['\n'.join(lines)], to state what
    [clean.split('\n')] keeps. *)
Fixpoint join_nl (ls : list pystr) : pystr :=
  match ls with
  | [] => []
  | [x] => x
  | x :: rest => x ++ NL :: join_nl rest
  end.

Definition count_nl (l : pystr) : nat := length (filter (fun c => c =? NL) l).

(** The dictionary [parse_usage] returns on a transcript, or the initial
    one if it raises. *)
Definition returned (text : pystr) : usage :=
  match parse_usage text with Ok r => r | Raise _ => init_result [] end.

(** ** Locating the CLI, fetching the transcript and the entry point *)

(** What [find_claude_cli] reads from the host: [shutil.which('claude')],
    [os.path.expanduser('~')], [os.path.isfile] and [os.access(_, os.X_OK)]. *)
Record host := mk_host {
  which_claude : option pystr;
  home : pystr;
  isfile : pystr -> bool;
  access_x_ok : pystr -> bool
}.

Definition possible_paths (home_dir : pystr) : list pystr :=
  [home_dir ++ str "/.local/bin/claude";
   str "/usr/local/bin/claude";
   str "/opt/homebrew/bin/claude";
   home_dir ++ str "/.npm-global/bin/claude";
   str "/usr/bin/claude"].

(** Truth value of a Python string ([if claude_path:]). *)
Definition py_truthy (s : pystr) : bool := match s with [] => false | _ => true end.

(** [for path in possible_paths: if os.path.isfile(path) and os.access(path, os.X_OK): return path] *)
Fixpoint first_executable (h : host) (paths : list pystr) : option pystr :=
  match paths with
  | [] => None
  | p :: rest => if isfile h p && access_x_ok h p then Some p else first_executable h rest
  end.

Definition find_claude_cli (h : host) : option pystr :=
  match which_claude h with
  | Some p => if py_truthy p then Some p else first_executable h (possible_paths (home h))
  | None => first_executable h (possible_paths (home h))
  end.




Local Set Warnings "-register-all".





(** ** Vocabulary of the further properties *)

(** At every position of [l], the run of digits starting there has at most
    [k] characters. *)
Fixpoint digit_runs_at_most (k : nat) (l : pystr) : bool :=
  match l with
  | [] => true
  | c :: t => Nat.leb (length (fst (span is_digit (c :: t)))) k && digit_runs_at_most k t
  end.

(** Every header line of [sec] in [ls] has no percentage in its window. *)
Fixpoint header_windows_without_pct (sec : section) (ls : list pystr) : bool :=
  match ls with
  | [] => true
  | l :: rest =>
      (negb (is_header sec l) ||
       match first_match find_pct (firstn 3 (l :: rest)) with None => true | Some _ => false end)
      && header_windows_without_pct sec rest
  end.

(** ** Tests *)

Example clean_ex1 :
  clean ([ESC] ++ str "[1;32mhi" ++ [ESC] ++ str "[0m   there")
  = str "hi there".
Proof. reflexivity. Qed.


Example parse_session_ex :
  parse_usage (str "Current session" ++ [NL] ++ str "  45%" ++ [NL]
               ++ str "  Resets 3:00pm (America/NY)")
  = Ok {| session_percent := 45; session_reset := str "3:00pm (America/NY";
          weekly_percent := 0; weekly_reset := []; sonnet_percent := 0;
          raw := str "Current session" ++ [NL] ++ str " 45%" ++ [NL]
                 ++ str " Resets 3:00pm (America/NY)" |}.
Proof. vm_compute. reflexivity. Qed.

Example parse_weekly_ex :
  option_map weekly_reset
    (match parse_usage (str "Current week (all models)" ++ [NL] ++ str "  12%"
                        ++ [NL] ++ str "  Resets Jan 5, 2025") with
     | Ok r => Some r | Raise _ => None end)
  = Some (str "Jan 5, 2025").
Proof. vm_compute. reflexivity. Qed.

Example parse_sonnet_ex :
  option_map sonnet_percent
    (match parse_usage (str "Sonnet only" ++ [NL] ++ str "  7%") with
     | Ok r => Some r | Raise _ => None end)
  = Some 7.
Proof. vm_compute. reflexivity. Qed.

(** ** Properties of the cleaned text *)

Lemma no_double_space_cons a l :
  no_double_space (a :: l) = true -> no_double_space l = true.
Proof.
  destruct l as [|b l]; simpl; [reflexivity|].
  intros H; apply andb_prop in H; tauto.
Qed.

Lemma no_double_space_skipn n l :
  no_double_space l = true -> no_double_space (skipn n l) = true.
Proof.
  revert l; induction n as [|n IH]; intros [|a l] H; simpl; auto.
  apply IH, (no_double_space_cons a), H.
Qed.

Lemma no_double_space_spec l :
  no_double_space l = true -> ~ exists pre post, l = pre ++ [SPACE; SPACE] ++ post.
Proof.
  intros H [pre [post E]]; subst l.
  induction pre as [|a pre IH]; simpl in H.
  - discriminate H.
  - apply IH. apply (no_double_space_cons a). exact H.
Qed.

Lemma collapse_spaces_no_double b l :
  no_double_space (collapse_spaces b l) = true /\
  (b = true -> hd_error (collapse_spaces b l) <> Some SPACE).
Proof.
  revert b; induction l as [|c t IH]; intros b; simpl.
  - split; [reflexivity | discriminate].
  - destruct (c =? SPACE) eqn:Ec.
    + destruct b.
      * exact (IH true).
      * destruct (IH true) as [H1 H2]. split; [|discriminate].
        destruct (collapse_spaces true t) as [|d u] eqn:Eu; [reflexivity|].
        change (negb ((SPACE =? SPACE) && (d =? SPACE)) && no_double_space (d :: u) = true).
        rewrite H1, andb_true_r.
        destruct (d =? SPACE) eqn:Ed; [|reflexivity].
        apply N.eqb_eq in Ed; subst d. exfalso; apply (H2 eq_refl); reflexivity.
      + destruct (IH false) as [H1 _]. split.
        * destruct (collapse_spaces false t) as [|d u]; [reflexivity|].
          change (negb ((c =? SPACE) && (d =? SPACE)) && no_double_space (d :: u) = true).
          rewrite Ec, H1. reflexivity.
        * intros _ E. simpl in E. injection E as E. subst c.
          rewrite N.eqb_refl in Ec. discriminate.
Qed.

Lemma collapse_spaces_Forall (P : char -> Prop) b l :
  P SPACE -> Forall P l -> Forall P (collapse_spaces b l).
Proof.
  intros HS; revert b; induction l as [|c t IH]; intros b Hl; simpl; [constructor|].
  inversion Hl; subst.
  destruct (c =? SPACE); [destruct b|]; auto.
Qed.

Lemma replace_nonprintable_Forall l :
  Forall (fun c => printable_or_nl c = true) (replace_nonprintable l).
Proof.
  induction l as [|c t IH]; simpl; constructor; auto.
  destruct (printable_or_nl c) eqn:E; [exact E | reflexivity].
Qed.

Lemma clean_printable text :
  Forall (fun c => printable_or_nl c = true) (clean text).
Proof.
  unfold clean. apply collapse_spaces_Forall; [reflexivity|].
  apply replace_nonprintable_Forall.
Qed.

Lemma clean_no_double_space text : no_double_space (clean text) = true.
Proof. apply collapse_spaces_no_double. Qed.

Lemma clean_no_esc text : ~ In ESC (clean text).
Proof.
  intros H. pose proof (clean_printable text) as F.
  rewrite Forall_forall in F. specialize (F _ H). discriminate.
Qed.

Lemma strip_csi_no_esc l : ~ In ESC l -> strip_csi l = l.
Proof.
  induction l as [|c t IH]; intros H; [reflexivity|].
  simpl. destruct (c =? ESC) eqn:E.
  - apply N.eqb_eq in E. subst. exfalso. apply H. left. reflexivity.
  - f_equal. apply IH. intros H'. apply H. right. exact H'.
Qed.

Lemma strip_osc_no_esc l : ~ In ESC l -> strip_osc l = l.
Proof.
  induction l as [|c t IH]; intros H; [reflexivity|].
  simpl. destruct (c =? ESC) eqn:E.
  - apply N.eqb_eq in E. subst. exfalso. apply H. left. reflexivity.
  - f_equal. apply IH. intros H'. apply H. right. exact H'.
Qed.

(** ** The loop: frame and update lemmas *)

Lemma bind_ok {A B} (m : pyres A) (f : A -> pyres B) r :
  bind m f = Ok r -> exists a, m = Ok a /\ f a = Ok r.
Proof. destruct m as [a|e]; simpl; [eauto | discriminate]. Qed.

(** Split a hypothesis [step ... = Ok b] into the paths through the code. *)
Ltac open_step H :=
  unfold step, scan_pct, scan_session_reset, scan_weekly_reset, py_int in H;
  cbv beta iota in H.
Ltac step_paths H :=
  open_step H;
  unfold scan_pct, scan_session_reset, scan_weekly_reset, py_int in H;
  repeat (match type of H with
          | context [if ?b then _ else _] => destruct b eqn:?
          | context [match ?x with Some _ => _ | None => _ end] => destruct x eqn:?
          end; cbn [bind] in H);
  try discriminate H; injection H as <-.

Lemma step_raw l ls acc b :
  step (l :: ls) acc = Ok b -> raw b = raw acc.
Proof. intros H; step_paths H; reflexivity. Qed.

Lemma step_not_session l ls acc b :
  is_session_header l = false -> step (l :: ls) acc = Ok b ->
  session_percent b = session_percent acc /\ session_reset b = session_reset acc.
Proof. intros Hh H; open_step H; rewrite Hh in H; step_paths H; split; reflexivity. Qed.

Lemma step_not_weekly l ls acc b :
  is_weekly_header l = false -> step (l :: ls) acc = Ok b ->
  weekly_percent b = weekly_percent acc /\ weekly_reset b = weekly_reset acc.
Proof. intros Hh H; open_step H; rewrite Hh in H; step_paths H; split; reflexivity. Qed.

Lemma step_not_sonnet l ls acc b :
  is_sonnet_header l = false -> step (l :: ls) acc = Ok b ->
  sonnet_percent b = sonnet_percent acc.
Proof. intros Hh H; open_step H; rewrite Hh in H; step_paths H; reflexivity. Qed.

Lemma step_session_percent l ls acc b ds :
  is_session_header l = true ->
  first_match find_pct (firstn 3 (l :: ls)) = Some ds ->
  step (l :: ls) acc = Ok b -> session_percent b = digits_value ds.
Proof. intros Hh Hm H; open_step H; rewrite Hh, Hm in H; step_paths H; reflexivity. Qed.

Lemma step_session_reset l ls acc b g :
  is_session_header l = true ->
  first_match find_sreset (firstn 3 (l :: ls)) = Some g ->
  step (l :: ls) acc = Ok b -> session_reset b = strip g.
Proof. intros Hh Hm H; open_step H; rewrite Hh, Hm in H; step_paths H; reflexivity. Qed.

Lemma step_weekly_percent l ls acc b ds :
  is_weekly_header l = true ->
  first_match find_pct (firstn 3 (l :: ls)) = Some ds ->
  step (l :: ls) acc = Ok b -> weekly_percent b = digits_value ds.
Proof. intros Hh Hm H; open_step H; rewrite Hh, Hm in H; step_paths H; reflexivity. Qed.

Lemma step_weekly_reset l ls acc b g :
  is_weekly_header l = true ->
  first_match find_wreset (firstn 5 (l :: ls)) = Some g ->
  step (l :: ls) acc = Ok b -> weekly_reset b = strip (drop_resets_prefix g).
Proof. intros Hh Hm H; open_step H; rewrite Hh, Hm in H; step_paths H; reflexivity. Qed.

Lemma step_sonnet_percent l ls acc b ds :
  is_sonnet_header l = true ->
  first_match find_pct (firstn 3 (l :: ls)) = Some ds ->
  step (l :: ls) acc = Ok b -> sonnet_percent b = digits_value ds.
Proof. intros Hh Hm H; open_step H; rewrite Hh, Hm in H; step_paths H; reflexivity. Qed.

(** Where the two reset fields can come from after one iteration. *)
Lemma step_resets l ls acc b :
  step (l :: ls) acc = Ok b ->
  (session_reset b = session_reset acc \/
   exists g, first_match find_sreset (firstn 3 (l :: ls)) = Some g /\
             session_reset b = strip g) /\
  (weekly_reset b = weekly_reset acc \/
   exists g, first_match find_wreset (firstn 5 (l :: ls)) = Some g /\
             weekly_reset b = strip (drop_resets_prefix g)).
Proof.
  intros H; step_paths H;
    split; solve [left; reflexivity | right; eexists; split; reflexivity].
Qed.

Lemma step_no_header l ls acc :
  is_session_header l = false -> is_weekly_header l = false ->
  is_sonnet_header l = false -> step (l :: ls) acc = Ok acc.
Proof. intros H1 H2 H3. unfold step. rewrite H1, H2, H3. reflexivity. Qed.

Lemma loop_cons_inv l ls a r :
  loop (l :: ls) a = Ok r -> exists b, step (l :: ls) a = Ok b /\ loop ls b = Ok r.
Proof. intros H. apply bind_ok in H. exact H. Qed.

Lemma loop_raw ls acc r : loop ls acc = Ok r -> raw r = raw acc.
Proof.
  revert acc; induction ls as [|l ls IH]; intros acc H.
  - injection H as <-. reflexivity.
  - apply loop_cons_inv in H as [b [Hs Hl]].
    rewrite (IH _ Hl). exact (step_raw _ _ _ _ Hs).
Qed.

(** The iterations for the lines before [X] only change the dictionary the
    iterations over [X] start from. *)
Lemma loop_app_inv pre X acc r :
  loop (pre ++ X) acc = Ok r -> exists a, loop X a = Ok r.
Proof.
  revert acc; induction pre as [|l pre IH]; intros acc H; [eauto|].
  simpl app in H. apply loop_cons_inv in H as [b [_ Hl]]. exact (IH _ Hl).
Qed.

Lemma loop_not_session ls a r :
  (forall l, In l ls -> is_session_header l = false) -> loop ls a = Ok r ->
  session_percent r = session_percent a /\ session_reset r = session_reset a.
Proof.
  revert a; induction ls as [|l ls IH]; intros a Hh H.
  - injection H as <-. split; reflexivity.
  - apply loop_cons_inv in H as [b [Hs Hl]].
    destruct (step_not_session _ _ _ _ (Hh l (or_introl eq_refl)) Hs) as [E1 E2].
    destruct (IH b (fun l' H' => Hh l' (or_intror H')) Hl) as [E3 E4].
    split; congruence.
Qed.

Lemma loop_not_weekly ls a r :
  (forall l, In l ls -> is_weekly_header l = false) -> loop ls a = Ok r ->
  weekly_percent r = weekly_percent a /\ weekly_reset r = weekly_reset a.
Proof.
  revert a; induction ls as [|l ls IH]; intros a Hh H.
  - injection H as <-. split; reflexivity.
  - apply loop_cons_inv in H as [b [Hs Hl]].
    destruct (step_not_weekly _ _ _ _ (Hh l (or_introl eq_refl)) Hs) as [E1 E2].
    destruct (IH b (fun l' H' => Hh l' (or_intror H')) Hl) as [E3 E4].
    split; congruence.
Qed.

Lemma loop_not_sonnet ls a r :
  (forall l, In l ls -> is_sonnet_header l = false) -> loop ls a = Ok r ->
  sonnet_percent r = sonnet_percent a.
Proof.
  revert a; induction ls as [|l ls IH]; intros a Hh H.
  - injection H as <-. reflexivity.
  - apply loop_cons_inv in H as [b [Hs Hl]].
    rewrite (IH b (fun l' H' => Hh l' (or_intror H')) Hl).
    exact (step_not_sonnet _ _ _ _ (Hh l (or_introl eq_refl)) Hs).
Qed.

Lemma loop_no_header ls a :
  (forall l, In l ls ->
     is_session_header l = false /\ is_weekly_header l = false /\
     is_sonnet_header l = false) ->
  loop ls a = Ok a.
Proof.
  induction ls as [|l ls IH]; intros Hh; [reflexivity|].
  cbn [loop]. destruct (Hh l (or_introl eq_refl)) as [H1 [H2 H3]].
  rewrite (step_no_header _ _ _ H1 H2 H3). cbn [bind].
  apply IH. intros l' H'. exact (Hh l' (or_intror H')).
Qed.

(** An invariant of the two reset fields that every iteration keeps. *)
Lemma loop_resets_inv (Q : pystr -> Prop) ls a r :
  (forall l ls' acc b, step (l :: ls') acc = Ok b -> incl (l :: ls') ls ->
     (Q (session_reset acc) -> Q (session_reset b)) /\
     (Q (weekly_reset acc) -> Q (weekly_reset b))) ->
  Q (session_reset a) -> Q (weekly_reset a) -> loop ls a = Ok r ->
  Q (session_reset r) /\ Q (weekly_reset r).
Proof.
  intros Hstep. remember ls as full eqn:Ef. rewrite Ef in Hstep.
  assert (Hsub : incl full ls) by (rewrite Ef; apply incl_refl).
  clear Ef. revert a Hsub.
  induction full as [|l full IH]; intros a Hsub Hs Hw H.
  - injection H as <-. split; assumption.
  - apply loop_cons_inv in H as [b [Hst Hl]].
    destruct (Hstep _ _ _ _ Hst Hsub) as [Q1 Q2].
    apply (IH b); auto.
    intros x Hx. apply Hsub. right. exact Hx.
Qed.

(** ** What the regex searches return *)

Lemma span_spec p l a b :
  span p l = (a, b) -> l = a ++ b /\ Forall (fun c => p c = true) a.
Proof.
  revert a b; induction l as [|c t IH]; intros a b H; simpl in H.
  - injection H as <- <-. split; [reflexivity | constructor].
  - destruct (p c) eqn:Ep.
    + destruct (span p t) as [a' b'] eqn:E. injection H as <- <-.
      destruct (IH _ _ eq_refl) as [-> F]. split; [reflexivity | constructor; assumption].
    + injection H as <- <-. split; [reflexivity | constructor].
Qed.

Lemma span_fst_snd p l : l = fst (span p l) ++ snd (span p l).
Proof. destruct (span p l) as [a b] eqn:E. exact (proj1 (span_spec _ _ _ _ E)). Qed.

Lemma span_fst_Forall p l : Forall (fun c => p c = true) (fst (span p l)).
Proof. destruct (span p l) as [a b] eqn:E. exact (proj2 (span_spec _ _ _ _ E)). Qed.

Lemma ci_prefix_spec p l m r :
  ci_prefix p l = Some (m, r) ->
  l = m ++ r /\ Forall (fun b => In (lower_char b) p) m.
Proof.
  revert l m r; induction p as [|a p IH]; intros l m r H.
  - injection H as <- <-. split; [reflexivity | constructor].
  - destruct l as [|b l]; simpl in H; [discriminate|].
    destruct (lower_char b =? a) eqn:Eb; [|discriminate].
    destruct (ci_prefix p l) as [[m' r']|] eqn:E; [|discriminate].
    injection H as <- <-. apply N.eqb_eq in Eb.
    destruct (IH _ _ _ E) as [-> F]. split; [reflexivity|].
    constructor; [left; symmetry; exact Eb|].
    eapply Forall_impl; [|exact F]. intros x Hx; right; exact Hx.
Qed.

Lemma alt_prefix_spec alts l m r :
  alt_prefix alts l = Some (m, r) ->
  l = m ++ r /\ exists a, In a alts /\ Forall (fun b => In (lower_char b) a) m.
Proof.
  induction alts as [|a alts IH]; simpl; intros H; [discriminate|].
  destruct (ci_prefix a l) as [[m' r']|] eqn:E.
  - injection H as -> ->. destruct (ci_prefix_spec _ _ _ _ E) as [? F].
    split; [assumption|]. exists a; split; [left; reflexivity | exact F].
  - destruct (IH H) as [? [a' [Ha F]]]. split; [assumption|].
    exists a'; split; [right; exact Ha | exact F].
Qed.

Lemma opt_s_spec {A} (k : pystr -> pystr -> option A) l x :
  opt_s k l = Some x ->
  exists s r, l = s ++ r /\ Forall (fun c => lower_char c = 115) s /\ k s r = Some x.
Proof.
  unfold opt_s. destruct l as [|c t].
  - intros H. exists [], []. auto.
  - destruct (lower_char c =? 115) eqn:E.
    + apply N.eqb_eq in E. destruct (k [c] t) eqn:Ek.
      * intros H. injection H as <-. exists [c], t. auto.
      * intros H. exists [], (c :: t). auto.
    + intros H. exists [], (c :: t). auto.
Qed.

Lemma search_spec {A} (m : pystr -> option A) line x :
  search m line = Some x -> exists pre suf, line = pre ++ suf /\ m suf = Some x.
Proof.
  induction line as [|c t IH]; simpl; destruct (m _) eqn:E; intros H.
  - injection H as <-. exists [], []. auto.
  - discriminate.
  - injection H as <-. exists [], (c :: t). auto.
  - destruct (IH H) as [pre [suf [-> Hs]]]. exists (c :: pre), suf. auto.
Qed.

Lemma first_match_spec {A} (f : pystr -> option A) w x :
  first_match f w = Some x -> exists l, In l w /\ f l = Some x.
Proof.
  induction w as [|l w IH]; simpl; [discriminate|].
  destruct (f l) eqn:E; intros H.
  - injection H as <-. exists l; split; [left; reflexivity | exact E].
  - destruct (IH H) as [l' [Hi Hf]]. exists l'; split; [right; exact Hi | exact Hf].
Qed.

Lemma firstn_incl' {A} n (l : list A) : incl (firstn n l) l.
Proof.
  intros x Hx. rewrite <- (firstn_skipn n l). apply in_or_app. left. exact Hx.
Qed.

(** No character of a class that excludes [')'] is [')']. *)
Lemma Forall_class_not_rparen (p : char -> bool) l :
  p RPAREN = false -> Forall (fun c => p c = true) l -> Forall (fun c => c <> RPAREN) l.
Proof.
  intros Hp F. eapply Forall_impl; [|exact F]. intros c Hc ->. congruence.
Qed.

Lemma Forall_lower_not_rparen (p : pystr) l :
  ~ In RPAREN p -> Forall (fun b => In (lower_char b) p) l ->
  Forall (fun c => c <> RPAREN) l.
Proof.
  intros Hp F. eapply Forall_impl; [|exact F]. intros c Hc ->. exact (Hp Hc).
Qed.

Lemma Forall_app_intro {A} (P : A -> Prop) a b :
  Forall P a -> Forall P b -> Forall P (a ++ b).
Proof. intros Ha Hb. apply Forall_app. split; assumption. Qed.

Ltac no_rparen_lit := simpl; intuition discriminate.

Lemma sreset_at_spec l g :
  sreset_at l = Some g ->
  (exists pre post, l = pre ++ g ++ post) /\ Forall (fun c => c <> RPAREN) g.
Proof.
  unfold sreset_at.
  destruct (ci_prefix (str "reset") l) as [[w r1]|] eqn:E; [|discriminate].
  intros H. apply ci_prefix_spec in E as [El _].
  apply opt_s_spec in H as [s [r2 [Er1 [_ Hk]]]]. cbv beta in Hk.
  destruct (span is_space r2) as [sp0 r3] eqn:Esp0. cbn [snd] in Hk.
  apply span_spec in Esp0 as [Er2 _].
  destruct r3 as [|d t]; [discriminate|].
  destruct (is_digit d); [|discriminate].
  destruct (span is_digit_or_colon (d :: t)) as [run r4] eqn:Erun.
  apply span_spec in Erun as [Er3 Frun].
  destruct (span is_space r4) as [sp r5] eqn:Esp.
  apply span_spec in Esp as [Er4 Fsp].
  destruct r5 as [|a [|m r6]]; try discriminate.
  destruct ((lower_char a =? 97) || (lower_char a =? 112)) eqn:Ea; [|discriminate].
  destruct (lower_char m =? 109) eqn:Em; [|discriminate].
  injection Hk as <-. split.
  - exists (w ++ s ++ sp0), (snd (span not_rparen_nl r6)).
    rewrite El, Er1, Er2, Er3, Er4, (span_fst_snd not_rparen_nl r6) at 1.
    repeat rewrite <- app_assoc. reflexivity.
  - apply Forall_app_intro.
    { apply (Forall_class_not_rparen is_digit_or_colon); [reflexivity | exact Frun]. }
    apply Forall_app_intro.
    { apply (Forall_class_not_rparen is_space); [reflexivity | exact Fsp]. }
    constructor; [intros ->; vm_compute in Ea; discriminate|].
    constructor; [intros ->; vm_compute in Em; discriminate|].
    apply (Forall_class_not_rparen not_rparen_nl); [reflexivity|].
    apply span_fst_Forall.
Qed.

Lemma months_no_rparen a : In a months -> ~ In RPAREN a.
Proof.
  simpl. intros H. repeat destruct H as [<-|H]; try contradiction; no_rparen_lit.
Qed.

Lemma wreset_at_spec l g :
  wreset_at l = Some g ->
  (exists post, l = g ++ post) /\ Forall (fun c => c <> RPAREN) g.
Proof.
  unfold wreset_at.
  destruct (ci_prefix (str "reset") l) as [[w r1]|] eqn:E; [|discriminate].
  intros H. apply ci_prefix_spec in E as [El Fw].
  apply opt_s_spec in H as [s [r2 [Er1 [Fs Hk]]]]. cbv beta in Hk.
  destruct (span is_space r2) as [sp r3] eqn:Esp.
  apply span_spec in Esp as [Er2 Fsp].
  destruct (alt_prefix months r3) as [[mon r4]|] eqn:Emon; [|discriminate].
  apply alt_prefix_spec in Emon as [Er3 [mo [Hmo Fmon]]].
  destruct (fst (span not_rparen_nl r4)) as [|c tl] eqn:Etl; [discriminate|].
  injection Hk as <-. split.
  - exists (snd (span not_rparen_nl r4)).
    rewrite El, Er1, Er2, Er3. rewrite (span_fst_snd not_rparen_nl r4) at 1. rewrite Etl.
    repeat rewrite <- app_assoc. reflexivity.
  - apply Forall_app_intro.
    { apply (Forall_lower_not_rparen (str "reset")); [no_rparen_lit | exact Fw]. }
    apply Forall_app_intro.
    { eapply Forall_impl; [|exact Fs]. intros x Hx ->. vm_compute in Hx. discriminate. }
    apply Forall_app_intro.
    { apply (Forall_class_not_rparen is_space); [reflexivity | exact Fsp]. }
    apply Forall_app_intro.
    { apply (Forall_lower_not_rparen mo); [apply months_no_rparen; exact Hmo | exact Fmon]. }
    rewrite <- Etl. apply (Forall_class_not_rparen not_rparen_nl); [reflexivity|].
    apply span_fst_Forall.
Qed.

Lemma find_sreset_spec line g :
  find_sreset line = Some g ->
  incl g line /\ Forall (fun c => c <> RPAREN) g.
Proof.
  intros H. apply search_spec in H as [pre [suf [-> Hm]]].
  apply sreset_at_spec in Hm as [[p [q ->]] F]. split; [|exact F].
  intros x Hx. apply in_or_app. right. apply in_or_app. right.
  apply in_or_app. left. exact Hx.
Qed.

Lemma find_wreset_spec line g :
  find_wreset line = Some g ->
  incl g line /\ Forall (fun c => c <> RPAREN) g.
Proof.
  intros H. apply search_spec in H as [pre [suf [-> Hm]]].
  apply wreset_at_spec in Hm as [[q ->] F]. split; [|exact F].
  intros x Hx. apply in_or_app. right. apply in_or_app. left. exact Hx.
Qed.

Lemma lstrip_incl l : incl (lstrip l) l.
Proof.
  induction l as [|c t IH]; simpl; [apply incl_refl|].
  destruct (is_space c); [|apply incl_refl].
  intros x Hx. right. exact (IH x Hx).
Qed.

Lemma strip_incl l : incl (strip l) l.
Proof.
  unfold strip. intros x Hx.
  apply in_rev, lstrip_incl, in_rev, lstrip_incl in Hx. exact Hx.
Qed.

Lemma snd_span_incl p l : incl (snd (span p l)) l.
Proof.
  intros x Hx. rewrite (span_fst_snd p l). apply in_or_app. right. exact Hx.
Qed.

Lemma drop_resets_prefix_incl g : incl (drop_resets_prefix g) g.
Proof.
  unfold drop_resets_prefix.
  destruct (ci_prefix (str "reset") g) as [[m r1]|] eqn:E; [|apply incl_refl].
  apply ci_prefix_spec in E as [-> _].
  intros x Hx. apply in_or_app. right.
  apply snd_span_incl in Hx.
  destruct r1 as [|c t]; [exact Hx|].
  destruct (lower_char c =? 115); [right|]; exact Hx.
Qed.

Lemma split_nl_no_nl l line : In line (split_nl l) -> ~ In NL line.
Proof.
  revert line; induction l as [|c t IH]; intros line H; simpl in H.
  - destruct H as [<-|[]]. simpl. tauto.
  - destruct (c =? NL) eqn:Ec.
    + destruct H as [<-|H]; [simpl; tauto | exact (IH _ H)].
    + destruct (split_nl t) as [|r rs] eqn:Es.
      * destruct H as [<-|[]]. simpl. intros [E|[]].
        subst. rewrite N.eqb_refl in Ec. discriminate.
      * destruct H as [<-|H].
        -- intros [E|Hr]; [subst; rewrite N.eqb_refl in Ec; discriminate|].
           exact (IH r (or_introl eq_refl) Hr).
        -- exact (IH line (or_intror H)).
Qed.

(** ** The last header of a section decides its fields *)

Lemma last_session_header pre h post a r :
  is_session_header h = true ->
  (forall l, In l post -> is_session_header l = false) ->
  loop (pre ++ h :: post) a = Ok r ->
  (forall ds, first_match find_pct (firstn 3 (h :: post)) = Some ds ->
     session_percent r = digits_value ds) /\
  (forall g, first_match find_sreset (firstn 3 (h :: post)) = Some g ->
     session_reset r = strip g).
Proof.
  intros Hh Hp H. apply loop_app_inv in H as [a' H].
  apply loop_cons_inv in H as [b [Hs Hl]].
  destruct (loop_not_session _ _ _ Hp Hl) as [E1 E2].
  split; intros x Hx; [rewrite E1 | rewrite E2]; eauto using step_session_percent,
    step_session_reset.
Qed.

Lemma last_weekly_header pre h post a r :
  is_weekly_header h = true ->
  (forall l, In l post -> is_weekly_header l = false) ->
  loop (pre ++ h :: post) a = Ok r ->
  (forall ds, first_match find_pct (firstn 3 (h :: post)) = Some ds ->
     weekly_percent r = digits_value ds) /\
  (forall g, first_match find_wreset (firstn 5 (h :: post)) = Some g ->
     weekly_reset r = strip (drop_resets_prefix g)).
Proof.
  intros Hh Hp H. apply loop_app_inv in H as [a' H].
  apply loop_cons_inv in H as [b [Hs Hl]].
  destruct (loop_not_weekly _ _ _ Hp Hl) as [E1 E2].
  split; intros x Hx; [rewrite E1 | rewrite E2]; eauto using step_weekly_percent,
    step_weekly_reset.
Qed.

Lemma last_sonnet_header pre h post a r :
  is_sonnet_header h = true ->
  (forall l, In l post -> is_sonnet_header l = false) ->
  loop (pre ++ h :: post) a = Ok r ->
  forall ds, first_match find_pct (firstn 3 (h :: post)) = Some ds ->
    sonnet_percent r = digits_value ds.
Proof.
  intros Hh Hp H. apply loop_app_inv in H as [a' H].
  apply loop_cons_inv in H as [b [Hs Hl]].
  intros ds Hds. rewrite (loop_not_sonnet _ _ _ Hp Hl).
  eauto using step_sonnet_percent.
Qed.

Lemma parse_usage_loop s : parse_usage s = loop (lines_of s) (init_result (py_tail 1000 (clean s))).
Proof. reflexivity. Qed.

Lemma first_match_app {A} (f : pystr -> option A) w1 w2 x :
  first_match f w1 = Some x -> first_match f (w1 ++ w2) = Some x.
Proof.
  induction w1 as [|l w1 IH]; simpl; [discriminate|].
  destruct (f l); [tauto | exact IH].
Qed.

(** * Claims *)

(** ** C1 *)

(** C1 (code_bug): [parse_usage] is not total.  A section percentage with
    more than 4300 digits reaches [int(match.group(1))], which raises
    [ValueError] under CPython's integer string conversion limit, so
    [parse_usage] raises instead of returning its dictionary. *)
Theorem parse_usage_raises_on_long_percent :
  parse_usage long_percent_transcript = Raise ValueError.
Proof. vm_compute. reflexivity. Qed.

(** ** C2 *)

(** C2 (counterexample): on the scenario transcript the session reset text
    is cut before the closing parenthesis, so it does not contain
    ["3:00pm (America/NY)"]. *)
Lemma session_scenario_reset_truncated :
  exists r, parse_usage session_scenario = Ok r /\
    contains (session_reset r) (str "3:00pm (America/NY)") = false.
Proof. eexists. split; [vm_compute; reflexivity | vm_compute; reflexivity]. Qed.

(** C2 (amended): when the cleaned lines contain ["Current session"],
    [" 45%"], [" Resets 3:00pm (America/NY)"] in a row and no later line is
    a session header, a returned dictionary has [session_percent = 45] and
    [session_reset = "3:00pm (America/NY"]. *)
Theorem session_scenario_fields s pre post r :
  lines_of s = pre ++ [str "Current session"; str " 45%";
                       str " Resets 3:00pm (America/NY)"] ++ post ->
  (forall l, In l post -> is_session_header l = false) ->
  parse_usage s = Ok r ->
  session_percent r = 45 /\ session_reset r = str "3:00pm (America/NY".
Proof.
  intros Hl Hp H. rewrite parse_usage_loop, Hl in H.
  simpl app in H at 2.
  apply last_session_header in H as [Hpct Hrst]; [| reflexivity |].
  - rewrite (Hpct (str "45")), (Hrst (str "3:00pm (America/NY")); split; reflexivity.
  - intros l [<-|[<-|Hin]]; [reflexivity | reflexivity | exact (Hp l Hin)].
Qed.

Lemma session_scenario_fields_witness :
  session_percent (returned session_scenario) = 45 /\
  session_reset (returned session_scenario) = str "3:00pm (America/NY".
Proof.
  apply (session_scenario_fields session_scenario [] []).
  - vm_compute. reflexivity.
  - intros l [].
  - vm_compute. reflexivity.
Defined.

(** ** C3 *)

(** C3 (counterexample): the first digits immediately followed by ['%'] in
    the session window are ["7"], but [session_percent] is 45, read from
    ["45 %"]: the pattern allows spaces before the percent sign. *)
Lemma spaced_percent_counts :
  first_match find_tight_pct (firstn 3 (lines_of spaced_percent_transcript))
    = Some (str "7") /\
  exists r, parse_usage spaced_percent_transcript = Ok r /\ session_percent r = 45.
Proof.
  split; [vm_compute; reflexivity|].
  eexists. split; [vm_compute; reflexivity | reflexivity].
Qed.

(** C3 (amended): let [h] be the last cleaned line that is a header of a
    section.  If the window of [h] (that line and the next two) contains a
    match of digits, optional whitespace and ['%'], the section's
    percentage in a returned dictionary is the value of the digits of the
    first match, searching [h] first and then the following lines, whatever
    the lines before [h] contain. *)
Theorem percent_from_last_header sec s pre h post ds r :
  lines_of s = pre ++ h :: post ->
  is_header sec h = true ->
  (forall l, In l post -> is_header sec l = false) ->
  first_match find_pct (firstn 3 (h :: post)) = Some ds ->
  parse_usage s = Ok r ->
  percent_of sec r = digits_value ds.
Proof.
  intros Hl Hh Hp Hds H. rewrite parse_usage_loop, Hl in H.
  destruct sec; simpl in *.
  - exact (proj1 (last_session_header _ _ _ _ _ Hh Hp H) ds Hds).
  - exact (proj1 (last_weekly_header _ _ _ _ _ Hh Hp H) ds Hds).
  - exact (last_sonnet_header _ _ _ _ _ Hh Hp H ds Hds).
Qed.

Lemma percent_from_last_header_witness :
  percent_of Weekly (returned sample_transcript) = 12.
Proof.
  apply (percent_from_last_header Weekly sample_transcript
           (firstn 5 (lines_of sample_transcript))
           (str "Current week (all models)")
           (skipn 6 (lines_of sample_transcript)) (str "12")).
  - vm_compute. reflexivity.
  - vm_compute. reflexivity.
  - intros l Hin. vm_compute in Hin.
    repeat destruct Hin as [<-|Hin]; try contradiction; vm_compute; reflexivity.
  - vm_compute. reflexivity.
  - vm_compute. reflexivity.
Defined.

(** ** C4 *)

(** C4: percentages are not clamped: a window holding ["250%"] gives a
    session percentage of 250, above 100. *)
Theorem percent_not_clamped :
  exists r, parse_usage over_hundred_transcript = Ok r /\
    session_percent r = 250 /\ 100 < session_percent r.
Proof. eexists. split; [vm_compute; reflexivity | split; reflexivity]. Qed.

(** ** C5 *)

(** C5: [raw] holds at most 1000 characters: the last 1000 characters of the
    cleaned text when it is longer, the whole cleaned text otherwise. *)
Theorem raw_is_tail s r :
  parse_usage s = Ok r ->
  (length (raw r) <= 1000)%nat /\
  ((1000 < length (clean s))%nat ->
     exists pre, clean s = pre ++ raw r /\ length (raw r) = 1000%nat) /\
  ((length (clean s) <= 1000)%nat -> raw r = clean s).
Proof.
  rewrite parse_usage_loop. intros H. apply loop_raw in H. simpl in H.
  rewrite H. unfold py_tail. rewrite length_skipn.
  split; [lia|split].
  - intros Hlt. exists (firstn (length (clean s) - 1000) (clean s)).
    rewrite firstn_skipn. split; [reflexivity | lia].
  - intros Hle. replace (length (clean s) - 1000)%nat with 0%nat by lia.
    reflexivity.
Qed.

Lemma raw_is_tail_witness :
  (length (raw (returned sample_transcript)) <= 1000)%nat.
Proof.
  apply (proj1 (raw_is_tail sample_transcript (returned sample_transcript)
                  ltac:(vm_compute; reflexivity))).
Defined.

(** ** C6 *)

(** C6: the two escape-removal substitutions leave cleaned text unchanged:
    it holds no escape character, and both patterns start with one. *)
Theorem strip_escapes_idempotent s :
  strip_osc (strip_csi (clean s)) = clean s.
Proof.
  rewrite (strip_csi_no_esc _ (clean_no_esc s)).
  apply strip_osc_no_esc, clean_no_esc.
Qed.

(** ** C7 *)

(** C7 (counterexample): the transcript holds the three weekly lines, but a
    later weekly header with its own percentage overrides them. *)
Lemma weekly_later_header_overrides :
  exists r, parse_usage weekly_redrawn_transcript = Ok r /\ weekly_percent r = 99.
Proof. eexists. split; [vm_compute; reflexivity | reflexivity]. Qed.

(** C7 (amended): when the cleaned lines contain
    ["Current week (all models)"], [" 12%"], [" Resets Jan 5, 2025"] in a
    row and no later line is a weekly header, a returned dictionary has
    [weekly_percent = 12] and [weekly_reset = "Jan 5, 2025"]. *)
Theorem weekly_scenario_fields s pre post r :
  lines_of s = pre ++ [str "Current week (all models)"; str " 12%";
                       str " Resets Jan 5, 2025"] ++ post ->
  (forall l, In l post -> is_weekly_header l = false) ->
  parse_usage s = Ok r ->
  weekly_percent r = 12 /\ weekly_reset r = str "Jan 5, 2025".
Proof.
  intros Hl Hp H. rewrite parse_usage_loop, Hl in H.
  simpl app in H at 2.
  apply last_weekly_header in H as [Hpct Hrst]; [| reflexivity |].
  - rewrite (Hpct (str "12")) by reflexivity.
    rewrite (Hrst (str "Resets Jan 5, 2025")); [split; reflexivity|].
    change (firstn 5 (str "Current week (all models)" :: str " 12%"
                      :: str " Resets Jan 5, 2025" :: post))
      with ([str "Current week (all models)"; str " 12%"; str " Resets Jan 5, 2025"]
            ++ firstn 2 post).
    apply first_match_app. vm_compute. reflexivity.
  - intros l [<-|[<-|Hin]]; [reflexivity | reflexivity | exact (Hp l Hin)].
Qed.

Lemma weekly_scenario_fields_witness :
  weekly_percent (returned weekly_scenario) = 12 /\
  weekly_reset (returned weekly_scenario) = str "Jan 5, 2025".
Proof.
  apply (weekly_scenario_fields weekly_scenario [] []).
  - vm_compute. reflexivity.
  - intros l [].
  - vm_compute. reflexivity.
Defined.

(** ** C8 *)

(** C8: without any section header among the cleaned lines, [parse_usage]
    returns the defaults and the tail of the cleaned text. *)
Theorem no_header_defaults s :
  (forall l, In l (lines_of s) ->
     is_session_header l = false /\ is_weekly_header l = false /\
     is_sonnet_header l = false) ->
  parse_usage s =
    Ok {| session_percent := 0; session_reset := []; weekly_percent := 0;
          weekly_reset := []; sonnet_percent := 0;
          raw := py_tail 1000 (clean s) |}.
Proof. intros Hh. rewrite parse_usage_loop. exact (loop_no_header _ _ Hh). Qed.

Lemma no_header_defaults_witness :
  parse_usage headerless_transcript =
    Ok {| session_percent := 0; session_reset := []; weekly_percent := 0;
          weekly_reset := []; sonnet_percent := 0;
          raw := py_tail 1000 (clean headerless_transcript) |}.
Proof.
  apply no_header_defaults. intros l Hin. vm_compute in Hin.
  repeat destruct Hin as [<-|Hin]; try contradiction; vm_compute; auto.
Defined.

(** ** C9 *)

(** C9: the two reset fields of a returned dictionary contain neither
    [')'] nor a newline. *)
Theorem resets_exclude_rparen_newline s r :
  parse_usage s = Ok r ->
  ~ In RPAREN (session_reset r) /\ ~ In NL (session_reset r) /\
  ~ In RPAREN (weekly_reset r) /\ ~ In NL (weekly_reset r).
Proof.
  rewrite parse_usage_loop. intros H.
  assert (Q : forall x line, incl x line -> ~ In NL line ->
                Forall (fun c => c <> RPAREN) x ->
                forall y, incl y x -> ~ In RPAREN y /\ ~ In NL y).
  { intros x line Hx Hline F y Hy. rewrite Forall_forall in F. split.
    - intros Hin. exact (F _ (Hy _ Hin) eq_refl).
    - intros Hin. exact (Hline (Hx _ (Hy _ Hin))). }
  apply (loop_resets_inv (fun x => ~ In RPAREN x /\ ~ In NL x)) in H.
  - tauto.
  - intros l ls' acc b Hs Hincl.
    destruct (step_resets _ _ _ _ Hs) as [[E1|[g [Hg E1]]] [E2|[g' [Hg' E2]]]];
      split; intros HQ; rewrite ?E1, ?E2; try exact HQ.
    all: first
      [ apply first_match_spec in Hg as [line [Hin Hf]];
        destruct (find_sreset_spec _ _ Hf) as [Hx F];
        apply (Q g line Hx); [|exact F|apply strip_incl];
        apply (split_nl_no_nl (clean s)); apply Hincl, (firstn_incl' 3), Hin
      | apply first_match_spec in Hg' as [line [Hin Hf]];
        destruct (find_wreset_spec _ _ Hf) as [Hx F];
        apply (Q g' line Hx); [|exact F|];
        [ apply (split_nl_no_nl (clean s)); apply Hincl, (firstn_incl' 5), Hin
        | intros c Hc; apply drop_resets_prefix_incl, strip_incl, Hc ] ].
  - simpl. tauto.
  - simpl. tauto.
Qed.

Lemma resets_exclude_rparen_newline_witness :
  ~ In RPAREN (session_reset (returned sample_transcript)).
Proof.
  apply (resets_exclude_rparen_newline sample_transcript (returned sample_transcript)).
  vm_compute. reflexivity.
Defined.

(** ** C10 *)

(** C10: [raw] contains only printable ASCII characters and newlines, and
    never two spaces in a row. *)
Theorem raw_printable_single_spaced s r :
  parse_usage s = Ok r ->
  Forall (fun c => (32 <= c <= 126) \/ c = 10) (raw r) /\
  ~ (exists pre post, raw r = pre ++ [32; 32] ++ post).
Proof.
  rewrite parse_usage_loop. intros H. apply loop_raw in H. simpl in H.
  rewrite H. unfold py_tail. split.
  - pose proof (clean_printable s) as F.
    rewrite Forall_forall in F |- *. intros c Hin.
    assert (Hc : printable_or_nl c = true).
    { apply F. rewrite <- (firstn_skipn (length (clean s) - 1000) (clean s)).
      apply in_or_app. right. exact Hin. }
    unfold printable_or_nl, in_range in Hc.
    apply orb_true_iff in Hc as [Hc|Hc].
    + apply andb_true_iff in Hc as [H1 H2]. apply N.leb_le in H1, H2. left; lia.
    + apply N.eqb_eq in Hc. right; exact Hc.
  - apply no_double_space_spec, no_double_space_skipn, clean_no_double_space.
Qed.

Lemma raw_printable_single_spaced_witness :
  ~ (exists pre post, raw (returned sample_transcript) = pre ++ [32; 32] ++ post).
Proof.
  apply (raw_printable_single_spaced sample_transcript (returned sample_transcript)).
  vm_compute. reflexivity.
Defined.

(** * Further properties *)

(** ** Cleaning *)

Lemma alpha_not_csi_param c : is_alpha c = true -> is_csi_param c = false.
Proof.
  unfold is_alpha, is_csi_param, is_digit, in_range. intros H.
  apply orb_true_iff in H as [H|H]; apply andb_true_iff in H as [H1 H2];
    apply N.leb_le in H1, H2;
    repeat (apply orb_false_iff; split); try apply andb_false_iff;
    try (apply N.eqb_neq; lia).
  all: first [left; apply N.leb_gt; lia | right; apply N.leb_gt; lia].
Qed.

Lemma csi_param_not_esc x : is_csi_param x = true -> x <> ESC.
Proof. intros H ->. discriminate H. Qed.

Lemma strip_csi_app_no_esc ps l :
  Forall (fun x => x <> ESC) ps -> strip_csi (ps ++ l) = ps ++ strip_csi l.
Proof.
  induction 1 as [|x ps Hx _ IH]; [reflexivity|].
  simpl. apply N.eqb_neq in Hx. rewrite Hx. f_equal. exact IH.
Qed.

(** [parse_usage] line 182: an escape, ['['], parameter characters and a
    letter are removed as a whole, and scanning resumes right after them. *)
Theorem strip_csi_removes_sequence ps c rest :
  Forall (fun x => is_csi_param x = true) ps -> is_alpha c = true ->
  strip_csi ([ESC; 91] ++ ps ++ c :: rest) = strip_csi rest.
Proof.
  intros Hps Hc. simpl.
  set (fb := strip_csi (ps ++ c :: rest)). clearbody fb.
  induction Hps as [|x ps Hx _ IH]; simpl.
  - rewrite (alpha_not_csi_param _ Hc), Hc. reflexivity.
  - rewrite Hx. exact IH.
Qed.

Lemma strip_csi_removes_sequence_witness :
  strip_csi ([ESC; 91] ++ str "1;32" ++ 109 :: str "ok") = str "ok".
Proof.
  refine (eq_trans (strip_csi_removes_sequence (str "1;32") 109 (str "ok") _ _) _).
  all: first [vm_compute; reflexivity | repeat constructor].
Defined.

(** [parse_usage] line 182: when the parameters are followed by something
    other than a letter, nothing is removed there: the escape, the ['['] and
    the parameters stay, and scanning goes on at that character. *)
Theorem strip_csi_keeps_unterminated ps c rest :
  Forall (fun x => is_csi_param x = true) ps ->
  is_csi_param c = false -> is_alpha c = false ->
  strip_csi ([ESC; 91] ++ ps ++ c :: rest) = [ESC; 91] ++ ps ++ strip_csi (c :: rest).
Proof.
  intros Hps Hp Ha.
  assert (Hne : Forall (fun x => x <> ESC) ps).
  { eapply Forall_impl; [|exact Hps]. exact csi_param_not_esc. }
  transitivity (ESC :: 91 :: strip_csi (ps ++ c :: rest)).
  2: { rewrite (strip_csi_app_no_esc _ _ Hne). reflexivity. }
  simpl. set (fb := strip_csi (ps ++ c :: rest)). clearbody fb.
  induction Hps as [|x ps Hx _ IH]; simpl.
  - rewrite Hp, Ha. reflexivity.
  - rewrite Hx. apply IH. inversion Hne; assumption.
Qed.

Lemma strip_csi_keeps_unterminated_witness :
  strip_csi ([ESC; 91] ++ str "12" ++ 32 :: str "x") = [ESC; 91] ++ str "12 x".
Proof.
  refine (eq_trans (strip_csi_keeps_unterminated (str "12") 32 (str "x") _ _ _) _).
  all: first [vm_compute; reflexivity | repeat constructor].
Defined.

(** [parse_usage] line 183: an escape followed by one of [< > = \]] is
    removed together with everything up to the next escape or the end of
    the text. *)
Theorem strip_osc_removes_to_next_esc b body rest :
  is_osc_intro b = true -> Forall (fun x => x <> ESC) body ->
  (rest = [] \/ hd_error rest = Some ESC) ->
  strip_osc ([ESC; b] ++ body ++ rest) = strip_osc rest.
Proof.
  intros Hb Hbody Hrest. simpl. rewrite Hb.
  induction Hbody as [|x body Hx _ IH]; simpl.
  - destruct Hrest as [->|Hh]; [reflexivity|].
    destruct rest as [|y rest]; [reflexivity|].
    simpl in Hh. injection Hh as ->. reflexivity.
  - apply N.eqb_neq in Hx. rewrite Hx. exact IH.
Qed.

Lemma strip_osc_removes_to_next_esc_witness :
  strip_osc ([ESC; 93] ++ str "0;title" ++ [ESC] ++ str "x") = [ESC] ++ str "x".
Proof.
  refine (eq_trans (strip_osc_removes_to_next_esc 93 (str "0;title") ([ESC] ++ str "x") _ _ _) _).
  - reflexivity.
  - repeat constructor; discriminate.
  - right. reflexivity.
  - vm_compute. reflexivity.
Defined.

Lemma replace_nonprintable_id l :
  Forall (fun c => printable_or_nl c = true) l -> replace_nonprintable l = l.
Proof.
  induction 1 as [|c l Hc _ IH]; [reflexivity|].
  simpl. rewrite Hc. f_equal. exact IH.
Qed.

Lemma collapse_spaces_id b l :
  no_double_space l = true -> (b = true -> hd_error l <> Some SPACE) ->
  collapse_spaces b l = l.
Proof.
  revert b; induction l as [|c t IH]; intros b Hn Hh; [reflexivity|].
  simpl. destruct (c =? SPACE) eqn:Ec.
  - apply N.eqb_eq in Ec. subst c. destruct b.
    + exfalso. apply (Hh eq_refl). reflexivity.
    + f_equal. apply IH; [exact (no_double_space_cons _ _ Hn)|].
      intros _. destruct t as [|d t]; [discriminate|].
      simpl in Hn |- *. intros E. injection E as ->. rewrite N.eqb_refl in Hn.
      discriminate Hn.
  - f_equal. apply IH; [exact (no_double_space_cons _ _ Hn) | discriminate].
Qed.

(** [parse_usage] lines 182 to 185: cleaning cleaned text changes nothing. *)
Theorem clean_idempotent s : clean (clean s) = clean s.
Proof.
  unfold clean at 1.
  rewrite (strip_csi_no_esc _ (clean_no_esc s)), (strip_osc_no_esc _ (clean_no_esc s)).
  rewrite (replace_nonprintable_id _ (clean_printable s)).
  apply collapse_spaces_id; [apply clean_no_double_space | discriminate].
Qed.

Lemma strip_csi_length l : (length (strip_csi l) <= length l)%nat.
Proof.
  enough (H : forall n l, (length l <= n)%nat -> (length (strip_csi l) <= length l)%nat)
    by (apply (H (length l)); lia).
  clear l. induction n as [|n IH]; intros l Hn.
  { destruct l; [reflexivity | simpl in Hn; lia]. }
  destruct l as [|c t]; [simpl; lia|]. simpl in Hn |- *.
  destruct (c =? ESC).
  2: { specialize (IH t ltac:(lia)). simpl. lia. }
  destruct t as [|b t']; [simpl; lia|].
  assert (Hfb := IH (b :: t') ltac:(simpl in *; lia)). simpl in Hn.
  destruct (b =? 91).
  2: { simpl in Hfb |- *. lia. }
  set (fb := strip_csi (b :: t')) in *. clearbody fb.
  match goal with |- (length (?F t') <= ?B)%nat =>
    assert (Hg : forall u, (length u <= length t')%nat -> (length (F u) <= B)%nat) end.
  { induction u as [|x u' IHu]; intros Hu; simpl; [simpl in Hfb; lia|].
    destruct (is_csi_param x); [simpl in Hu; apply IHu; lia|].
    destruct (is_alpha x); simpl in Hfb |- *; [|lia].
    specialize (IH u' ltac:(simpl in Hu; lia)). simpl in Hu. lia. }
  apply Hg. lia.
Qed.

Lemma strip_osc_length l : (length (strip_osc l) <= length l)%nat.
Proof.
  enough (H : forall n l, (length l <= n)%nat -> (length (strip_osc l) <= length l)%nat)
    by (apply (H (length l)); lia).
  clear l. induction n as [|n IH]; intros l Hn.
  { destruct l; [reflexivity | simpl in Hn; lia]. }
  destruct l as [|c t]; [simpl; lia|]. simpl in Hn |- *.
  destruct (c =? ESC).
  2: { specialize (IH t ltac:(lia)). simpl. lia. }
  destruct t as [|b t']; [simpl; lia|].
  assert (Hfb := IH (b :: t') ltac:(simpl in *; lia)). simpl in Hn.
  destruct (is_osc_intro b).
  2: { simpl in Hfb |- *. lia. }
  match goal with |- (length (?F t') <= ?B)%nat =>
    assert (Hg : forall u, (length u <= length t')%nat -> (length (F u) <= B)%nat) end.
  { induction u as [|x u' IHu]; intros Hu; cbv beta iota; [simpl; lia|].
    cbn [length] in Hu. destruct (x =? ESC); [|apply IHu; lia].
    specialize (IH (x :: u') ltac:(cbn [length]; lia)). cbn [length] in *. lia. }
  apply Hg. lia.
Qed.

Lemma collapse_spaces_length b l : (length (collapse_spaces b l) <= length l)%nat.
Proof.
  revert b; induction l as [|c t IH]; intros b; simpl; [lia|].
  destruct (c =? SPACE); [destruct b|]; simpl; pose proof (IH true); pose proof (IH false); lia.
Qed.

(** [parse_usage] lines 182 to 185: cleaning never makes the text longer. *)
Theorem clean_length s : (length (clean s) <= length s)%nat.
Proof.
  unfold clean. etransitivity; [apply collapse_spaces_length|].
  unfold replace_nonprintable. rewrite length_map.
  etransitivity; [apply strip_osc_length | apply strip_csi_length].
Qed.

(** ** When [parse_usage] returns *)

Lemma span_prefix_length p ds post :
  Forall (fun c => p c = true) ds -> (length ds <= length (fst (span p (ds ++ post))))%nat.
Proof.
  induction 1 as [|d ds Hd _ IH]; simpl; [lia|].
  rewrite Hd. destruct (span p (ds ++ post)) as [a b]. simpl in *. lia.
Qed.

Lemma digit_runs_infix k pre ds post :
  digit_runs_at_most k (pre ++ ds ++ post) = true ->
  Forall (fun c => is_digit c = true) ds -> (length ds <= k)%nat.
Proof.
  intros H Hds. induction pre as [|c pre IH].
  - destruct ds as [|d ds']; [simpl; lia|].
    simpl in H. apply andb_true_iff in H as [H _]. apply PeanoNat.Nat.leb_le in H.
    pose proof (span_prefix_length is_digit (d :: ds') post Hds). simpl in *. lia.
  - apply IH. simpl in H. apply andb_true_iff in H as [_ H]. exact H.
Qed.

Lemma find_pct_infix line ds :
  find_pct line = Some ds ->
  exists pre post, line = pre ++ ds ++ post /\ Forall (fun c => is_digit c = true) ds.
Proof.
  intros H. apply search_spec in H as [pre [suf [-> Hm]]].
  unfold pct_at in Hm. destruct (span is_digit suf) as [a b] eqn:E.
  apply span_spec in E as [-> Ha].
  destruct a as [|x a]; [discriminate|].
  destruct (snd (span is_space b)) as [|c t]; [discriminate|].
  destruct (c =? PERCENT); [|discriminate]. injection Hm as <-.
  exists pre, b. split; [reflexivity | exact Ha].
Qed.

Lemma scan_pct_ok set w acc :
  (forall line, In line w -> digit_runs_at_most max_str_digits line = true) ->
  exists b, scan_pct set w acc = Ok b.
Proof.
  intros H. unfold scan_pct.
  destruct (first_match find_pct w) as [ds|] eqn:E; [|eexists; reflexivity].
  apply first_match_spec in E as [line [Hin Hf]].
  apply find_pct_infix in Hf as [pre [post [-> Hds]]].
  pose proof (digit_runs_infix _ _ _ _ (H _ Hin) Hds) as Hlen.
  unfold py_int. destruct (PeanoNat.Nat.ltb_spec max_str_digits (length ds)); [lia|].
  eexists; reflexivity.
Qed.

Lemma step_ok l ls acc :
  (forall line, In line (l :: ls) -> digit_runs_at_most max_str_digits line = true) ->
  exists b, step (l :: ls) acc = Ok b.
Proof.
  intros H.
  assert (Hs : forall set a, exists b, scan_pct set (firstn 3 (l :: ls)) a = Ok b).
  { intros set a. apply scan_pct_ok. intros x Hx. apply H, (firstn_incl' 3), Hx. }
  unfold step; cbv beta iota.
  destruct (is_session_header l); destruct (is_weekly_header l);
    destruct (is_sonnet_header l); cbn [bind];
    repeat (match goal with |- context [scan_pct ?set (firstn 3 (l :: ls)) ?a] =>
              let E := fresh "E" in destruct (Hs set a) as [? E]; rewrite E; cbn [bind] end);
    eexists; reflexivity.
Qed.

Lemma loop_ok ls a :
  (forall line, In line ls -> digit_runs_at_most max_str_digits line = true) ->
  exists r, loop ls a = Ok r.
Proof.
  revert a; induction ls as [|l ls IH]; intros a H; [eexists; reflexivity|].
  destruct (step_ok l ls a H) as [b Hb]. cbn [loop]. rewrite Hb. cbn [bind].
  apply IH. intros x Hx. apply H. right. exact Hx.
Qed.

(** [parse_usage]: [int()] is the only call that can raise, on a percentage
    of more than 4300 digits; if no line of the cleaned text has a run of
    more than 4300 digits, [parse_usage] returns a result. *)
Theorem parse_usage_returns s :
  forallb (digit_runs_at_most max_str_digits) (lines_of s) = true ->
  exists r, parse_usage s = Ok r.
Proof.
  intros H. rewrite parse_usage_loop. apply loop_ok.
  intros line Hin. rewrite forallb_forall in H. exact (H line Hin).
Qed.

Lemma parse_usage_returns_witness :
  forallb (digit_runs_at_most max_str_digits) (lines_of sample_transcript) = true /\
  exists r, parse_usage sample_transcript = Ok r.
Proof.
  assert (H : forallb (digit_runs_at_most max_str_digits) (lines_of sample_transcript) = true)
    by (vm_compute; reflexivity).
  split; [exact H | exact (parse_usage_returns sample_transcript H)].
Defined.

(** ** Percentages and resets of the last header *)

Lemma step_pct_nomatch sec l ls acc b :
  first_match find_pct (firstn 3 (l :: ls)) = None ->
  step (l :: ls) acc = Ok b -> percent_of sec b = percent_of sec acc.
Proof. intros Hm H; open_step H; rewrite !Hm in H; step_paths H; destruct sec; reflexivity. Qed.

Lemma loop_no_pct sec ls a r :
  header_windows_without_pct sec ls = true -> loop ls a = Ok r ->
  percent_of sec r = percent_of sec a.
Proof.
  revert a; induction ls as [|l ls IH]; intros a Hw H.
  { injection H as <-. reflexivity. }
  cbn [header_windows_without_pct] in Hw. apply andb_true_iff in Hw as [Hh Hw].
  apply loop_cons_inv in H as [b [Hs Hl]]. rewrite (IH b Hw Hl).
  apply orb_true_iff in Hh as [Hh|Hh].
  - apply negb_true_iff in Hh. destruct sec; simpl in Hh |- *.
    + exact (proj1 (step_not_session _ _ _ _ Hh Hs)).
    + exact (proj1 (step_not_weekly _ _ _ _ Hh Hs)).
    + exact (step_not_sonnet _ _ _ _ Hh Hs).
  - destruct (first_match find_pct (firstn 3 (l :: ls))) eqn:E; [discriminate|].
    exact (step_pct_nomatch sec _ _ _ _ E Hs).
Qed.

(** [parse_usage], percentage loops: a section's percentage stays 0 when no
    header line of that section has a percentage in its three-line window. *)
Theorem percent_default_without_match sec s r :
  header_windows_without_pct sec (lines_of s) = true ->
  parse_usage s = Ok r -> percent_of sec r = 0.
Proof.
  intros Hw H. rewrite parse_usage_loop in H.
  rewrite (loop_no_pct _ _ _ _ Hw H). destruct sec; reflexivity.
Qed.

Lemma percent_default_without_match_witness :
  session_percent (returned distant_percent_transcript) = 0.
Proof.
  unfold returned. destruct (parse_usage distant_percent_transcript) as [r|e] eqn:E.
  - exact (percent_default_without_match Session distant_percent_transcript r
             ltac:(vm_compute; reflexivity) E).
  - vm_compute in E. discriminate E.
Defined.

(** [parse_usage], session loop: [session_reset] is the stripped reset text
    found in the three-line window of the last session header. *)
Theorem session_reset_from_last_header s pre h post g r :
  lines_of s = pre ++ h :: post -> is_session_header h = true ->
  (forall l, In l post -> is_session_header l = false) ->
  first_match find_sreset (firstn 3 (h :: post)) = Some g ->
  parse_usage s = Ok r -> session_reset r = strip g.
Proof.
  intros Hs Hh Hp Hg H. rewrite parse_usage_loop, Hs in H.
  exact (proj2 (last_session_header _ _ _ _ _ Hh Hp H) g Hg).
Qed.

Lemma session_reset_from_last_header_witness :
  session_reset (returned sample_transcript) = str "3:00pm (America/NY".
Proof.
  unfold returned. destruct (parse_usage sample_transcript) as [r|e] eqn:E.
  - rewrite (session_reset_from_last_header sample_transcript
               (firstn 1 (lines_of sample_transcript))
               (nth 1 (lines_of sample_transcript) [])
               (skipn 2 (lines_of sample_transcript))
               (str "3:00pm (America/NY") r).
    + vm_compute. reflexivity.
    + vm_compute. reflexivity.
    + vm_compute. reflexivity.
    + intros l Hl. vm_compute in Hl.
      repeat (destruct Hl as [<-|Hl]; [vm_compute; reflexivity|]). destruct Hl.
    + vm_compute. reflexivity.
    + exact E.
  - vm_compute in E. discriminate E.
Defined.

(** [parse_usage], weekly loop: [weekly_reset] is the reset text found in
    the five-line window of the last weekly header, with its leading
    [resets] word and spaces removed, stripped. *)
Theorem weekly_reset_from_last_header s pre h post g r :
  lines_of s = pre ++ h :: post -> is_weekly_header h = true ->
  (forall l, In l post -> is_weekly_header l = false) ->
  first_match find_wreset (firstn 5 (h :: post)) = Some g ->
  parse_usage s = Ok r -> weekly_reset r = strip (drop_resets_prefix g).
Proof.
  intros Hs Hh Hp Hg H. rewrite parse_usage_loop, Hs in H.
  exact (proj2 (last_weekly_header _ _ _ _ _ Hh Hp H) g Hg).
Qed.

Lemma weekly_reset_from_last_header_witness :
  weekly_reset (returned weekly_far_reset_transcript) = str "Jan 5, 2025".
Proof.
  unfold returned. destruct (parse_usage weekly_far_reset_transcript) as [r|e] eqn:E.
  - rewrite (weekly_reset_from_last_header weekly_far_reset_transcript []
               (hd [] (lines_of weekly_far_reset_transcript))
               (tl (lines_of weekly_far_reset_transcript))
               (str "Resets Jan 5, 2025") r).
    + vm_compute. reflexivity.
    + vm_compute. reflexivity.
    + vm_compute. reflexivity.
    + intros l Hl. vm_compute in Hl.
      repeat (destruct Hl as [<-|Hl]; [vm_compute; reflexivity|]). destruct Hl.
    + vm_compute. reflexivity.
    + exact E.
  - vm_compute in E. discriminate E.
Defined.

(** ** Shape of the session reset *)

Lemma sreset_at_head_digit l g :
  sreset_at l = Some g -> exists d t, g = d :: t /\ is_digit d = true.
Proof.
  unfold sreset_at.
  destruct (ci_prefix (str "reset") l) as [[w r1]|]; [|discriminate].
  intros H. apply opt_s_spec in H as [s [r2 [_ [_ Hk]]]]. cbv beta in Hk.
  destruct (snd (span is_space r2)) as [|d t]; [discriminate|].
  destruct (is_digit d) eqn:Ed; [|discriminate].
  assert (Edc : is_digit_or_colon d = true) by (unfold is_digit_or_colon; rewrite Ed; reflexivity).
  cbn [span] in Hk. rewrite Edc in Hk.
  destruct (span is_digit_or_colon t) as [run r4].
  destruct (span is_space r4) as [sp r5].
  destruct r5 as [|a [|m r6]]; try discriminate.
  destruct ((lower_char a =? 97) || (lower_char a =? 112)); [|discriminate].
  destruct (lower_char m =? 109); [|discriminate].
  injection Hk as <-. exists d. eexists. split; [reflexivity | exact Ed].
Qed.

Lemma digit_not_space d : is_digit d = true -> is_space d = false.
Proof.
  unfold is_digit, is_space, in_range. intros H.
  apply andb_true_iff in H as [H1 H2]. apply N.leb_le in H1, H2.
  repeat (apply orb_false_iff; split); try apply andb_false_iff;
    try (apply N.eqb_neq; lia).
  all: first [left; apply N.leb_gt; lia | right; apply N.leb_gt; lia].
Qed.

Lemma lstrip_snoc_keep l d :
  is_space d = false -> exists l', lstrip (l ++ [d]) = l' ++ [d].
Proof.
  intros Hd. induction l as [|c t IH]; simpl.
  - rewrite Hd. exists []. reflexivity.
  - destruct (is_space c); [exact IH|]. exists (c :: t). reflexivity.
Qed.

Lemma strip_keeps_head d t :
  is_space d = false -> exists t', strip (d :: t) = d :: t'.
Proof.
  intros Hd. unfold strip. simpl. rewrite Hd. simpl.
  destruct (lstrip_snoc_keep (rev t) d Hd) as [l' ->].
  rewrite rev_app_distr. exists (rev l'). reflexivity.
Qed.

Lemma step_session_reset_cases l ls acc b :
  step (l :: ls) acc = Ok b ->
  session_reset b = session_reset acc \/
  exists w g, first_match find_sreset w = Some g /\ session_reset b = strip g.
Proof.
  intros H; step_paths H;
    first [left; reflexivity | right; do 2 eexists; split; [eassumption | reflexivity]].
Qed.

(** [parse_usage], session reset search: the session reset text is empty
    or starts with a digit (the [\d+] that begins the captured group). *)
Theorem session_reset_starts_with_digit s r :
  parse_usage s = Ok r ->
  session_reset r = [] \/ exists d t, session_reset r = d :: t /\ is_digit d = true.
Proof.
  rewrite parse_usage_loop. intros H.
  assert (Hinv : session_reset (init_result (py_tail 1000 (clean s))) = [] \/
                 exists d t, session_reset (init_result (py_tail 1000 (clean s))) = d :: t
                   /\ is_digit d = true) by (left; reflexivity).
  revert H Hinv. generalize (init_result (py_tail 1000 (clean s))) as a.
  induction (lines_of s) as [|l ls IH]; intros a H Hinv.
  { injection H as <-. exact Hinv. }
  apply loop_cons_inv in H as [b [Hs Hl]]. apply (IH b Hl).
  destruct (step_session_reset_cases _ _ _ _ Hs) as [E|[w [g [Hg E]]]].
  - rewrite E. exact Hinv.
  - right. rewrite E.
    apply first_match_spec in Hg as [line [_ Hg]].
    apply search_spec in Hg as [pre [suf [_ Hg]]].
    destruct (sreset_at_head_digit _ _ Hg) as [d [t [-> Hd]]].
    destruct (strip_keeps_head d t (digit_not_space d Hd)) as [t' ->].
    exists d, t'. split; [reflexivity | exact Hd].
Qed.

Lemma session_reset_starts_with_digit_witness :
  exists d t, session_reset (returned sample_transcript) = d :: t /\ is_digit d = true.
Proof.
  unfold returned. destruct (parse_usage sample_transcript) as [r|e] eqn:E.
  - destruct (session_reset_starts_with_digit sample_transcript r E) as [Hn|Hc].
    + vm_compute in E. injection E as <-. discriminate Hn.
    + exact Hc.
  - vm_compute in E. discriminate E.
Defined.

(** ** Locating the CLI and the entry point *)

Lemma first_executable_some h paths p :
  first_executable h paths = Some p <->
  exists pre post, paths = pre ++ p :: post /\
    isfile h p && access_x_ok h p = true /\
    (forall q, In q pre -> isfile h q && access_x_ok h q = false).
Proof.
  induction paths as [|x rest IH]; simpl.
  - split; [discriminate|]. intros [pre [post [E _]]]. destruct pre; discriminate E.
  - destruct (isfile h x && access_x_ok h x) eqn:Ex; split.
    + intros H. injection H as <-. exists [], rest. split; [reflexivity|].
      split; [exact Ex | intros q []].
    + intros [pre [post [E [Hp Hpre]]]]. destruct pre as [|y pre].
      * injection E as <- _. reflexivity.
      * injection E as <- _. rewrite (Hpre x (or_introl eq_refl)) in Ex. discriminate Ex.
    + intros H. apply IH in H as [pre [post [E [Hp Hpre]]]].
      exists (x :: pre), post. split; [rewrite E; reflexivity|]. split; [exact Hp|].
      intros q [<-|Hq]; [exact Ex | exact (Hpre q Hq)].
    + intros [pre [post [E [Hp Hpre]]]]. destruct pre as [|y pre].
      * injection E as <- _. rewrite Hp in Ex. discriminate Ex.
      * injection E as <- E. apply IH. exists pre, post.
        split; [exact E|]. split; [exact Hp|]. intros q Hq. apply Hpre. right. exact Hq.
Qed.

Lemma first_executable_none h paths :
  first_executable h paths = None <->
  forall q, In q paths -> isfile h q && access_x_ok h q = false.
Proof.
  induction paths as [|x rest IH]; simpl.
  - split; [intros _ q []| reflexivity].
  - destruct (isfile h x && access_x_ok h x) eqn:Ex; split.
    + discriminate.
    + intros H. rewrite (H x (or_introl eq_refl)) in Ex. discriminate Ex.
    + intros H q [<-|Hq]; [exact Ex | exact (proj1 IH H q Hq)].
    + intros H. apply IH. intros q Hq. apply H. right. exact Hq.
Qed.

(** [find_claude_cli]: when [shutil.which] gives nothing (or an empty
    string), the result is the first of the five candidate paths, in the
    order of [possible_paths], that is a file and executable. *)
Theorem find_claude_cli_first_candidate h p :
  which_claude h = None \/ which_claude h = Some [] ->
  find_claude_cli h = Some p <->
  exists pre post, possible_paths (home h) = pre ++ p :: post /\
    isfile h p = true /\ access_x_ok h p = true /\
    (forall q, In q pre -> isfile h q = false \/ access_x_ok h q = false).
Proof.
  intros Hw. unfold find_claude_cli.
  assert (E : (match which_claude h with
               | Some p => if py_truthy p then Some p else first_executable h (possible_paths (home h))
               | None => first_executable h (possible_paths (home h)) end)
              = first_executable h (possible_paths (home h)))
    by (destruct Hw as [-> | ->]; reflexivity).
  rewrite E, first_executable_some. split.
  - intros [pre [post [Ep [Hp Hpre]]]]. apply andb_true_iff in Hp as [Hf Hx].
    exists pre, post. repeat split; try assumption.
    intros q Hq. apply andb_false_iff, Hpre, Hq.
  - intros [pre [post [Ep [Hf [Hx Hpre]]]]]. exists pre, post.
    split; [exact Ep|]. split; [rewrite Hf, Hx; reflexivity|].
    intros q Hq. apply andb_false_iff, Hpre, Hq.
Qed.

Lemma find_claude_cli_first_candidate_witness :
  let is (q x : pystr) := if list_eq_dec N.eq_dec q x then true else false in
  let h := mk_host None (str "/home/u")
             (fun q => is q (str "/opt/homebrew/bin/claude") || is q (str "/usr/bin/claude"))
             (fun q => is q (str "/usr/bin/claude")) in
  (which_claude h = None \/ which_claude h = Some []) /\
  find_claude_cli h = Some (str "/usr/bin/claude").
Proof.
  intros is h. assert (Hw : which_claude h = None \/ which_claude h = Some []) by (left; reflexivity).
  split; [exact Hw|].
  apply (find_claude_cli_first_candidate h (str "/usr/bin/claude") Hw).
  exists (firstn 4 (possible_paths (home h))), [].
  split; [vm_compute; reflexivity|]. split; [vm_compute; reflexivity|].
  split; [vm_compute; reflexivity|].
  intros q Hq. vm_compute in Hq.
  repeat (destruct Hq as [<-|Hq]; [first [left; vm_compute; reflexivity | right; vm_compute; reflexivity]|]).
  destruct Hq.
Defined.

(** [find_claude_cli]: the lookup gives [None] exactly when [shutil.which]
    gives nothing (or an empty string) and none of the five candidate paths
    is both a file and executable. *)
Theorem find_claude_cli_none h :
  find_claude_cli h = None <->
  (which_claude h = None \/ which_claude h = Some []) /\
  (forall q, In q (possible_paths (home h)) -> isfile h q = false \/ access_x_ok h q = false).
Proof.
  unfold find_claude_cli.
  assert (Hc : first_executable h (possible_paths (home h)) = None <->
               (forall q, In q (possible_paths (home h)) ->
                  isfile h q = false \/ access_x_ok h q = false)).
  { rewrite first_executable_none. split; intros H q Hq; apply andb_false_iff, H, Hq. }
  destruct (which_claude h) as [[|c p]|]; simpl.
  - rewrite Hc. split; [intros H; split; [right; reflexivity | exact H] | intros [_ H]; exact H].
  - split; [discriminate|]. intros [[E|E] _]; discriminate E.
  - rewrite Hc. split; [intros H; split; [left; reflexivity | exact H] | intros [_ H]; exact H].
Qed.








(** ** Splitting into lines *)

Lemma split_nl_not_nil l : split_nl l <> [].
Proof.
  destruct l as [|c t]; simpl; [discriminate|].
  destruct (c =? NL); [discriminate|]. destruct (split_nl t); discriminate.
Qed.

Lemma split_nl_join l : join_nl (split_nl l) = l /\ length (split_nl l) = S (count_nl l).
Proof.
  unfold count_nl. induction l as [|c t [IHj IHl]]; [split; reflexivity|].
  pose proof (split_nl_not_nil t) as Hne. cbn [split_nl filter].
  destruct (c =? NL) eqn:Ec.
  - apply N.eqb_eq in Ec. subst c. split.
    + destruct (split_nl t) as [|x rs]; [contradiction|].
      change (join_nl ([] :: x :: rs)) with ([] ++ NL :: join_nl (x :: rs)).
      rewrite IHj. reflexivity.
    + simpl. rewrite IHl. reflexivity.
  - destruct (split_nl t) as [|x rs]; [contradiction|]. split.
    + destruct rs as [|y rs].
      * change (join_nl [c :: x]) with (c :: x). change (join_nl [x]) with x in IHj.
        rewrite IHj. reflexivity.
      * change (join_nl ((c :: x) :: y :: rs)) with (c :: (x ++ NL :: join_nl (y :: rs))).
        change (join_nl (x :: y :: rs)) with (x ++ NL :: join_nl (y :: rs)) in IHj.
        rewrite IHj. reflexivity.
    + simpl in IHl |- *. exact IHl.
Qed.

(** [parse_usage], [clean.split('\n')]: splitting loses nothing; joining
    the lines back with newlines gives the cleaned text, and there is one
    more line than there are newlines. *)
Theorem lines_of_join s :
  join_nl (lines_of s) = clean s /\ length (lines_of s) = S (count_nl (clean s)).
Proof. exact (split_nl_join (clean s)). Qed.
